(** * The calendar client (static/app.js): session, confirmation modal,
      Gateway calls and the click handlers, as an event-driven state machine.

    The script keeps three globals ([token], [me], [calendar]) and reacts to
    human gestures and to network replies.  Every [async] handler is cut at
    its [await]s: the part before an [await] runs inside the step that
    started it, the rest is stored as a continuation and resumed by the
    event that settles the awaited promise.  A step returns the new state
    and the list of effects it performed ([fetch], [alert], [prompt], ...). *)

From Stdlib Require Import NArith String Ascii List Bool Lia.
From stdpp Require Import base option gmap list.
Import ListNotations.
Local Open Scope N_scope.

(** ** JavaScript strings and values *)

(** A JavaScript string is a sequence of UTF-16 code units. *)
Definition jsstring := list N.

Definition cont_bits (a : ascii) : N := N.land (N_of_ascii a) 63.

(** The literals of the script are written as UTF-8 text in this file and
    turned into code units by [utf16]. *)
Fixpoint utf16 (s : string) : jsstring :=
  match s with
  | EmptyString => []
  | String a r =>
    let b := N_of_ascii a in
    if b <? 128 then b :: utf16 r
    else if b <? 224 then
      match r with
      | String a2 r2 => (N.land b 31 * 64 + cont_bits a2) :: utf16 r2
      | _ => []
      end
    else if b <? 240 then
      match r with
      | String a2 (String a3 r3) =>
        (N.land b 15 * 4096 + cont_bits a2 * 64 + cont_bits a3) :: utf16 r3
      | _ => []
      end
    else
      match r with
      | String a2 (String a3 (String a4 r4)) =>
        let cp := N.land b 7 * 262144 + cont_bits a2 * 4096
                  + cont_bits a3 * 64 + cont_bits a4 - 65536 in
        (55296 + cp / 1024) :: (56320 + cp mod 1024) :: utf16 r4
      | _ => []
      end
  end.

Arguments utf16 : simpl never.

Notation "'js' s" := (utf16 s%string) (at level 1, s at level 0, only parsing).

(** The values the script handles in the places modelled here: a missing
    property, [null], or a string. *)
Inductive jsval :=
| VUndefined
| VNull
| VStr (s : jsstring).

#[global] Instance jsval_eq_dec : EqDecision jsval.
Proof. solve_decision. Defined.

(** [if (v)], [!v]: only a non-empty string is truthy among these values. *)
Definition truthy (v : jsval) : bool :=
  match v with
  | VStr (_ :: _) => true
  | _ => false
  end.

(** [a || b] *)
Definition js_or (a b : jsval) : jsval := if truthy a then a else b.

(** [a ?? b] *)
Definition js_nullish (a b : jsval) : jsval :=
  match a with
  | VUndefined | VNull => b
  | VStr _ => a
  end.

(** [a === b] *)
Definition strict_eq (a b : jsval) : bool := bool_decide (a = b).

(** String conversion, as done by template literals and [new Error(v)]. *)
Definition to_string (v : jsval) : jsstring :=
  match v with
  | VUndefined => js "undefined"
  | VNull => js "null"
  | VStr s => s
  end.

(** ** [String.prototype.trim] *)

(** White space and line terminators of ECMAScript; all of them are single
    code units. *)
Definition is_ws (c : N) : bool :=
  (c =? 9) || (c =? 10) || (c =? 11) || (c =? 12) || (c =? 13) || (c =? 32)
  || (c =? 160) || (c =? 5760) || ((8192 <=? c) && (c <=? 8202))
  || (c =? 8232) || (c =? 8233) || (c =? 8239) || (c =? 8287)
  || (c =? 12288) || (c =? 65279).

Fixpoint trimStart (s : jsstring) : jsstring :=
  match s with
  | [] => []
  | c :: r => if is_ws c then trimStart r else s
  end.

Definition trimEnd (s : jsstring) : jsstring := rev (trimStart (rev s)).

Definition trim (s : jsstring) : jsstring := trimEnd (trimStart s).

(** ** Errors *)

(** Messages produced by the engine rather than by the script: the
    [TypeError] of a rejected [fetch], and the one raised by calling a
    method on [null].  Their wording is implementation defined. *)
Inductive engine_error :=
| FetchFailed
| NullCalendar.

#[global] Instance engine_error_eq_dec : EqDecision engine_error.
Proof. solve_decision. Defined.

Inductive text :=
| Text (s : jsstring)
| EngineText (k : engine_error).

(** An [Error] object; the script only ever reads its [message]. *)
Record error := Error { message : text }.

Inductive outcome (A : Type) :=
| Ok (a : A)
| Throw (e : error).
Arguments Ok {A} a.
Arguments Throw {A} e.

#[global] Instance text_eq_dec : EqDecision text.
Proof. solve_decision. Defined.

(** ** Gateway requests and replies *)

(** [{id, name, color}], as held in [me] and listed by [/api/users]. *)
Record user := User { user_id : jsval; user_name : jsval; user_color : jsval }.

(** A calendar event object as the click handler reads it: [ev.id],
    [ev.title] and the [extendedProps] the Gateway attached. *)
Record event := Event {
  ev_id : jsstring;
  ev_title : jsstring;
  ownerUserId : jsval;
  ownerName : jsval;
  ev_note : jsval
}.

(** The selection handed to [select]. *)
Record sel_info := SelInfo { startStr : jsstring; endStr : jsstring; allDay : bool }.

(** The URL of a call.  The script builds it as text; here it is kept as
    the endpoint with the values spliced into it ([encodeURIComponent] is
    not modelled). *)
Inductive path :=
| UsersPath                                      (* /api/users *)
| LoginPath                                      (* /api/login *)
| EventsRangePath (range_start range_end : jsstring) (* /api/events?start=..&end=.. *)
| EventsPath                                     (* /api/events *)
| EventPath (id : jsstring)                      (* /api/events/<id> *)
| EventPasscodePath (id passcode : jsstring).    (* /api/events/<id>?passcode=.. *)

Inductive http_method := POST | PUT | DELETE.

(** The object given to [JSON.stringify] for the request body. *)
Inductive body :=
| LoginBody (b_user_id passcode : jsstring)
| CreateBody (title start_at end_at : jsstring) (all_day : bool)
             (note : jsval) (passcode : jsstring)
| UpdateBody (title : jsstring) (note : jsval) (passcode : jsstring).

(** The second argument of [api]; an omitted property is [None]. *)
Record options := Options {
  opt_method : option http_method;
  opt_body : option body;
  opt_headers : option (gmap jsstring jsstring)
}.

Definition no_options : options := Options None None None.

(** What [fetch] is called with. *)
Record request := Request {
  req_path : path;
  req_method : option http_method;
  req_body : option body;
  req_headers : gmap jsstring jsstring
}.

(** A parsed reply body (an object or an array), seen through the
    properties the script reads.  [d_users] is the array of [/api/users]
    when the body is one. *)
Record jdata := JData {
  detail : jsval;
  d_token : jsval;
  d_user_id : jsval;
  d_name : jsval;
  d_color : jsval;
  d_users : option (list user)
}.

(** [{}] *)
Definition empty_object : jdata :=
  JData VUndefined VUndefined VUndefined VUndefined VUndefined None.

(** A reply: its status and its body, [None] when [res.json()] rejects. *)
Record response := Response { status : N; json : option jdata }.

(** [res.ok]: the status is in the range 200-299. *)
Definition ok (res : response) : bool := (200 <=? status res) && (status res <=? 299).

Definition cancel_text : jsstring := js "취소".
Definition request_failed_text : jsstring := js "요청 실패".

(** [api], up to the call of [fetch]: the headers are built from the
    caller's, the global [token] and the presence of a body. *)
Definition api_request (token : jsval) (p : path) (o : options) : request :=
  let headers := default ∅ (opt_headers o) in
  let headers :=
    if truthy token
    then <[js "Authorization" := js "Bearer " ++ to_string token]> headers
    else headers in
  let headers :=
    match opt_body o with
    | Some _ => <[js "Content-Type" := js "application/json"]> headers
    | None => headers
    end in
  Request p (opt_method o) (opt_body o) headers.

(** [api], after [fetch] has settled: [None] is a rejected [fetch]. *)
Definition api_result (reply : option response) : outcome jdata :=
  match reply with
  | None => Throw (Error (EngineText FetchFailed))
  | Some res =>
    let data := default empty_object (json res) in
    if negb (ok res)
    then Throw (Error (Text (to_string (js_or (detail data) (VStr request_failed_text)))))
    else Ok data
  end.

(** ** Program state *)

(** What a pending [api] call returns to. *)
Inductive api_kont :=
| KInit           (* init: const users = await api("/api/users") *)
| KLogin          (* loginBtn.onclick: const out = await api("/api/login", ..) *)
| KEvents         (* events: const data = await api(`/api/events?..`) *)
| KSelect         (* select: await api("/api/events", ..) *)
| KDelete         (* eventClick, delete: await api(`/api/events/..`, ..) *)
| KEdit.          (* eventClick, edit: await api(`/api/events/..`, ..) *)

(** What a pending [showModal] promise returns to, with the locals that
    are live across the [await]. *)
Inductive modal_kont :=
| MSelect (title : jsstring) (selInfo : sel_info)
| MDelete (ev : event)
| MEdit (ev : event) (newTitle : jsstring).

(** [{ passcode, note }] *)
Record confirmation := Confirmation { conf_passcode : jsstring; conf_note : jsstring }.

(** The closure stored in [modalOk.onclick] or [modalCancel.onclick]: both
    capture the [resolve]/[reject] of one promise, named by its number, and
    through it the handler awaiting that promise. *)
Definition modal_handler : Type := nat * modal_kont.

(** The page: properties of elements the script assigns, by element id and
    property name. *)
Definition dom_key : Type := jsstring * jsstring.

Record state := State {
  token : jsval;
  me : option user;
  calendar : option unit;            (* the FullCalendar object, or none *)
  buttons_wired : bool;              (* loginBtn/logoutBtn.onclick assigned *)
  dom : gmap dom_key jsstring;
  modalOk_onclick : option modal_handler;
  modalCancel_onclick : option modal_handler;
  pending : gmap nat api_kont;       (* api calls awaiting their reply *)
  next_id : nat                      (* promises created so far *)
}.

Definition with_token (v : jsval) (st : state) : state :=
  State v (me st) (calendar st) (buttons_wired st) (dom st)
        (modalOk_onclick st) (modalCancel_onclick st) (pending st) (next_id st).
Definition with_me (v : option user) (st : state) : state :=
  State (token st) v (calendar st) (buttons_wired st) (dom st)
        (modalOk_onclick st) (modalCancel_onclick st) (pending st) (next_id st).
Definition with_calendar (v : option unit) (st : state) : state :=
  State (token st) (me st) v (buttons_wired st) (dom st)
        (modalOk_onclick st) (modalCancel_onclick st) (pending st) (next_id st).
Definition with_buttons_wired (v : bool) (st : state) : state :=
  State (token st) (me st) (calendar st) v (dom st)
        (modalOk_onclick st) (modalCancel_onclick st) (pending st) (next_id st).
Definition with_dom (v : gmap dom_key jsstring) (st : state) : state :=
  State (token st) (me st) (calendar st) (buttons_wired st) v
        (modalOk_onclick st) (modalCancel_onclick st) (pending st) (next_id st).
Definition with_modalOk (v : option modal_handler) (st : state) : state :=
  State (token st) (me st) (calendar st) (buttons_wired st) (dom st)
        v (modalCancel_onclick st) (pending st) (next_id st).
Definition with_modalCancel (v : option modal_handler) (st : state) : state :=
  State (token st) (me st) (calendar st) (buttons_wired st) (dom st)
        (modalOk_onclick st) v (pending st) (next_id st).
Definition with_pending (v : gmap nat api_kont) (st : state) : state :=
  State (token st) (me st) (calendar st) (buttons_wired st) (dom st)
        (modalOk_onclick st) (modalCancel_onclick st) v (next_id st).
Definition with_next_id (v : nat) (st : state) : state :=
  State (token st) (me st) (calendar st) (buttons_wired st) (dom st)
        (modalOk_onclick st) (modalCancel_onclick st) (pending st) v.

(** ** Effects *)

Inductive calendar_call := Render | Destroy | RefetchEvents.

(** What a step does that is visible outside the script, plus the creation
    and settlement of the confirmation promises. *)
Inductive output :=
| OFetch (id : nat) (req : request)          (* fetch(path, {...}) *)
| OAlert (t : text)                          (* alert(..) *)
| OPrompt (msg : jsstring) (dflt : option jsstring)   (* prompt(..) *)
| OModal (rid : nat)                         (* showModal returned promise rid *)
| OSettled (rid : nat) (r : outcome confirmation)  (* resolve(..) / reject(..) *)
| OCalendar (c : calendar_call)              (* calendar.render() etc. *)
| OEvents (r : outcome jdata)                (* success(data) / failure(e) *)
| OUsers (us : list user).                   (* the option list and the legend *)

(** A piece of script: it reads and writes the state and performs effects. *)
Definition M (A : Type) : Type := state -> A * state * list output.

#[global] Instance M_ret : MRet M := fun A a st => (a, st, []).
#[global] Instance M_bind : MBind M := fun A B f m st =>
  let '(a, st1, o1) := m st in
  let '(b, st2, o2) := f a st1 in
  (b, st2, o1 ++ o2).

Definition get : M state := fun st => (st, st, []).
Definition modify (f : state -> state) : M unit := fun st => (tt, f st, []).
Definition emit (o : output) : M unit := fun st => (tt, st, [o]).
Definition skip : M unit := mret tt.

(** [$(el).prop = v] *)
Definition assign (el prop v : jsstring) : M unit :=
  modify (fun st => with_dom (<[(el, prop) := v]> (dom st)) st).

(** What an input box holds. *)
Definition field_value (st : state) (el : jsstring) : jsstring :=
  default [] (dom st !! (el, js "value")).

(** [$(el).value] *)
Definition value_of (el : jsstring) : M jsstring :=
  st ← get; mret (field_value st el).

Definition alert (t : text) : M unit := emit (OAlert t).

(** [prompt(msg, dflt)]; [answer] is what the human does with the dialog:
    [None] dismisses it, [Some s] submits the text [s]. *)
Definition prompt (msg : jsstring) (dflt : option jsstring)
    (answer : option jsstring) : M jsval :=
  emit (OPrompt msg dflt);;
  mret (match answer with Some s => VStr s | None => VNull end).

(** ** The script *)

(** [api(path, options)]: builds the request from the current [token],
    calls [fetch] and suspends; [k] is the caller's code after the
    [await].  The two awaits inside [api] ([fetch], then [res.json()]) touch
    no global in between and are resumed together by one reply. *)
Definition api (p : path) (o : options) (k : api_kont) : M unit :=
  st ← get;
  let id := next_id st in
  modify (fun st => with_next_id (S id) (with_pending (<[id := k]> (pending st)) st));;
  emit (OFetch id (api_request (token st) p o)).

(** [cleanup] inside [showModal] *)
Definition cleanup : M unit :=
  modify (with_modalOk None);;
  modify (with_modalCancel None);;
  assign (js "modal") (js "style.display") (js "none").

(** [showModal({ title, foot, withNote })], up to the returned promise;
    [k] is the caller's code after [await showModal(..)]. *)
Definition showModal (title foot : jsval) (withNote : bool) (k : modal_kont) : M unit :=
  assign (js "modalTitle") (js "textContent")
         (to_string (js_or title (VStr (js "암호 확인"))));;
  assign (js "modalFoot") (js "textContent") (to_string (js_or foot (VStr [])));;
  assign (js "modalPass") (js "value") [];;
  assign (js "modalNote") (js "value") [];;
  assign (js "modalNote") (js "style.display")
         (if withNote then js "block" else js "none");;
  assign (js "modal") (js "style.display") (js "grid");;
  st ← get;
  let rid := next_id st in
  modify (with_next_id (S rid));;
  emit (OModal rid);;
  modify (with_modalCancel (Some (rid, k)));;
  modify (with_modalOk (Some (rid, k))).

(** [setMeBadge(text, color = null)] *)
Definition setMeBadge (t : jsstring) (color : jsval) : M unit :=
  assign (js "meBadge") (js "textContent") t;;
  if truthy color then
    assign (js "meBadge") (js "style.borderColor") (to_string color ++ js "55");;
    assign (js "meBadge") (js "style.boxShadow")
           (js "0 0 22px " ++ to_string color ++ js "22")
  else
    assign (js "meBadge") (js "style.borderColor") (js "rgba(255,255,255,0.14)");;
    assign (js "meBadge") (js "style.boxShadow") (js "none").

(** [initCalendar()] *)
Definition initCalendar : M unit :=
  modify (with_calendar (Some tt));;
  emit (OCalendar Render).

(** [catch (e) { if (e.message !== "취소") alert(e.message); }] of [select]
    and [eventClick].  An engine-made message is taken to differ from the
    cancellation text. *)
Definition catch_unless_cancel (e : error) : M unit :=
  if bool_decide (message e = Text cancel_text) then skip else alert (message e).

(** [calendar.refetchEvents()] inside the [try] of [select] and
    [eventClick]: with no calendar the call throws into the [catch]. *)
Definition refetchEvents : M unit :=
  st ← get;
  match calendar st with
  | Some _ => emit (OCalendar RefetchEvents)
  | None => catch_unless_cancel (Error (EngineText NullCalendar))
  end.

(** [$("loginBtn").onclick], up to its [await] *)
Definition loginBtn_onclick (sel_value passInput_value : jsstring) : M unit :=
  api LoginPath
      (Options (Some POST) (Some (LoginBody sel_value passInput_value)) None)
      KLogin.

(** [$("logoutBtn").onclick] *)
Definition logoutBtn_onclick : M unit :=
  modify (with_token VNull);;
  modify (with_me None);;
  assign (js "calendarCard") (js "style.display") (js "none");;
  assign (js "loginCard") (js "style.display") (js "block");;
  assign (js "logoutBtn") (js "style.display") (js "none");;
  setMeBadge (js "OFFLINE") VNull;;
  st ← get;
  match calendar st with
  | Some _ => emit (OCalendar Destroy);; modify (with_calendar None)
  | None => skip
  end.

(** [init()], up to its [await] *)
Definition init : M unit := api UsersPath no_options KInit.

(** The [events] source of the calendar, up to its [await] *)
Definition events (info_startStr info_endStr : jsstring) : M unit :=
  api (EventsRangePath info_startStr info_endStr) no_options KEvents.

(** [select], up to [await showModal(..)] *)
Definition select (selInfo : sel_info) (title_answer : option jsstring) : M unit :=
  title ← prompt (js "일정 제목 입력") None title_answer;
  if negb (truthy title) then skip
  else showModal (VStr (js "일정 추가: 수정 암호 확인"))
                 (VStr (js "추가도 ‘수정권한’이라 암호 필요. 네 규칙이니까."))
                 true
                 (MSelect (to_string title) selInfo).

(** The text of the refusal in [eventClick]. *)
Definition not_yours_text (ownerName : jsval) : jsstring :=
  js "이 일정은 " ++ to_string ownerName ++ js " 작성이라 너는 손대면 안 됨.".

(** [eventClick], up to [await showModal(..)] *)
Definition eventClick (ev : event) (action_answer title_answer : option jsstring)
    : M unit :=
  st ← get;
  let isMine :=
    match me st with
    | Some u => strict_eq (ownerUserId ev) (user_id u)
    | None => false
    end in
  if negb isMine then alert (Text (not_yours_text (ownerName ev)))
  else
    action ← prompt (js "입력: edit / delete") None action_answer;
    if negb (truthy action) then skip
    else if strict_eq action (VStr (js "delete")) then
      showModal (VStr (js "삭제: 수정 암호 확인"))
                (VStr (js "삭제는 되돌릴 수 없음. 인간의 결심 체크."))
                false
                (MDelete ev)
    else if strict_eq action (VStr (js "edit")) then
      answer ← prompt (js "새 제목") (Some (ev_title ev)) title_answer;
      let newTitle := js_nullish answer (VStr (ev_title ev)) in
      showModal (VStr (js "수정: 수정 암호 확인"))
                (VStr (js "작성자만 수정 가능 + 암호도 필요. 네가 원한 지옥 룰."))
                true
                (MEdit ev (to_string newTitle))
    else alert (Text (js "edit 또는 delete만.")).

(** The code after [await showModal(..)] in [select] and [eventClick],
    entered with the settled promise. *)
Definition after_modal (k : modal_kont) (r : outcome confirmation) : M unit :=
  match r with
  | Throw e => catch_unless_cancel e
  | Ok c =>
    let passcode := conf_passcode c in
    let note := VStr (conf_note c) in
    match k with
    | MSelect title selInfo =>
      api EventsPath
          (Options (Some POST)
                   (Some (CreateBody title (startStr selInfo) (endStr selInfo)
                                     (allDay selInfo) (js_or note VNull) passcode))
                   None)
          KSelect
    | MDelete ev =>
      api (EventPasscodePath (ev_id ev) passcode)
          (Options (Some DELETE) None None)
          KDelete
    | MEdit ev newTitle =>
      api (EventPath (ev_id ev))
          (Options (Some PUT)
                   (Some (UpdateBody newTitle
                                     (js_or (js_or note (ev_note ev)) VNull)
                                     passcode))
                   None)
          KEdit
    end
  end.

(** [$("modalOk").onclick], for the promise [rid] awaited by [k] *)
Definition modalOk_click (h : modal_handler) : M unit :=
  let '(rid, k) := h in
  pass_value ← value_of (js "modalPass");
  note_value ← value_of (js "modalNote");
  let pass := trim pass_value in
  let note := trim note_value in
  cleanup;;
  let r := Ok (Confirmation pass note) in
  emit (OSettled rid r);;
  after_modal k r.

(** [$("modalCancel").onclick], for the promise [rid] awaited by [k] *)
Definition modalCancel_click (h : modal_handler) : M unit :=
  let '(rid, k) := h in
  cleanup;;
  let r := Throw (Error (Text cancel_text)) in
  emit (OSettled rid r);;
  after_modal k r.

(** The code after [await api(..)] in each caller, entered with what [api]
    returned or threw. *)
Definition after_api (k : api_kont) (r : outcome jdata) : M unit :=
  match k with
  | KInit =>
    match r with
    | Ok users =>
      match d_users users with
      | Some us =>
        emit (OUsers us);;
        modify (with_buttons_wired true);;
        setMeBadge (js "OFFLINE") VNull
      | None => skip      (* users.forEach throws; init has no catch *)
      end
    | Throw _ => skip     (* init has no catch *)
    end
  | KLogin =>
    match r with
    | Ok out =>
      modify (with_token (d_token out));;
      let u := User (d_user_id out) (d_name out) (d_color out) in
      modify (with_me (Some u));;
      assign (js "loginCard") (js "style.display") (js "none");;
      assign (js "calendarCard") (js "style.display") (js "block");;
      assign (js "logoutBtn") (js "style.display") (js "inline-block");;
      setMeBadge (to_string (user_name u) ++ js " ONLINE") (user_color u);;
      initCalendar
    | Throw e => alert (message e)
    end
  | KEvents => emit (OEvents r)
  | KSelect | KDelete | KEdit =>
    match r with
    | Ok _ => refetchEvents
    | Throw e => catch_unless_cancel e
    end
  end.

(** ** Events and steps *)

Inductive modal_field := PassField | NoteField.

(** What can happen to the page. *)
Inductive input :=
| Reply (id : nat) (reply : option response)   (* fetch number id settles *)
| LoginClick (sel_value passInput_value : jsstring)
| LogoutClick
| CalendarEvents (info_startStr info_endStr : jsstring)
| CalendarSelect (selInfo : sel_info) (title_answer : option jsstring)
| CalendarEventClick (ev : event) (action_answer title_answer : option jsstring)
| ModalType (f : modal_field) (v : jsstring)   (* the human edits a field *)
| ModalOkClick
| ModalCancelClick.

Definition field_id (f : modal_field) : jsstring :=
  match f with
  | PassField => js "modalPass"
  | NoteField => js "modalNote"
  end.

(** One event: the handler registered for it runs, if any.  The calendar
    calls [events], [select] and [eventClick] only while it exists. *)
Definition dispatch (st : state) (i : input) : M unit :=
  match i with
  | Reply id reply =>
    match pending st !! id with
    | Some k =>
      modify (fun st => with_pending (delete id (pending st)) st);;
      after_api k (api_result reply)
    | None => skip
    end
  | LoginClick sel_value passInput_value =>
    if buttons_wired st then loginBtn_onclick sel_value passInput_value else skip
  | LogoutClick =>
    if buttons_wired st then logoutBtn_onclick else skip
  | CalendarEvents s e =>
    match calendar st with Some _ => events s e | None => skip end
  | CalendarSelect selInfo title_answer =>
    match calendar st with Some _ => select selInfo title_answer | None => skip end
  | CalendarEventClick ev action_answer title_answer =>
    match calendar st with
    | Some _ => eventClick ev action_answer title_answer
    | None => skip
    end
  | ModalType f v => assign (field_id f) (js "value") v
  | ModalOkClick =>
    match modalOk_onclick st with Some h => modalOk_click h | None => skip end
  | ModalCancelClick =>
    match modalCancel_onclick st with Some h => modalCancel_click h | None => skip end
  end.

Definition handle (i : input) : M unit := st ← get; dispatch st i.

(** Running a piece of script from a state: the state it leaves and what
    it did. *)
Definition exec (m : M unit) (st : state) : state * list output :=
  let '(_, st', out) := m st in (st', out).

Definition step (st : state) (i : input) : state * list output :=
  exec (handle i) st.

Fixpoint run (st : state) (inputs : list input) : state * list output :=
  match inputs with
  | [] => (st, [])
  | i :: rest =>
    let '(st1, o1) := step st i in
    let '(st2, o2) := run st1 rest in
    (st2, o1 ++ o2)
  end.

(** The page before the script runs, and once [init()] has been called. *)
Definition pristine : state := State VNull None None false ∅ None None ∅ 0.

Definition loaded : state := fst (exec init pristine).

(** [current()]: the active session, if any. *)
Definition current (st : state) : option (jsval * user) :=
  match me st with
  | Some u => Some (token st, u)
  | None => None
  end.

(** ** Vocabulary of the statements *)

(** A string of white space only (the empty one included). *)
Definition blank (s : jsstring) : bool := forallb is_ws s.






(** The message [api] throws for a failed reply carrying [data]. *)
Definition failure_message (data : jdata) : jsstring :=
  match detail data with
  | VStr (c :: s) => c :: s
  | _ => request_failed_text
  end.

(** The callers of [api] that mutate: create, delete, update. *)
Definition is_mutation (k : api_kont) : bool :=
  match k with
  | KSelect | KDelete | KEdit => true
  | KInit | KLogin | KEvents => false
  end.

(** The page after [cleanup]. *)
Definition closed_modal (st : state) : state :=
  with_dom (<[(js "modal", js "style.display") := js "none"]> (dom st))
           (with_modalCancel None (with_modalOk None st)).


(** The title the update carries: what the human submitted in the title
    prompt, or the current title when the prompt was dismissed. *)
Definition edit_title (ev : event) (title_answer : option jsstring) : jsstring :=
  match title_answer with
  | Some s => s
  | None => ev_title ev
  end.

(** The note the update carries, for the text [n] left in the note box. *)
Definition kept_note (ev : event) (n : jsstring) : jsval :=
  if blank n then (if truthy (ev_note ev) then ev_note ev else VNull)
  else VStr (trim n).

(** The page right after [showModal]: fields reset, modal shown. *)
Definition modal_dom (title foot : jsval) (withNote : bool)
    (d : gmap dom_key jsstring) : gmap dom_key jsstring :=
  <[(js "modal", js "style.display") := js "grid"]>
  (<[(js "modalNote", js "style.display") := if withNote then js "block" else js "none"]>
  (<[(js "modalNote", js "value") := []]>
  (<[(js "modalPass", js "value") := []]>
  (<[(js "modalFoot", js "textContent") := to_string (js_or foot (VStr []))]>
  (<[(js "modalTitle", js "textContent")
     := to_string (js_or title (VStr (js "암호 확인")))]> d))))).

(** The state [showModal] leaves. *)
Definition opened (title foot : jsval) (withNote : bool) (k : modal_kont)
    (st : state) : state :=
  with_modalOk (Some (next_id st, k))
    (with_modalCancel (Some (next_id st, k))
       (with_next_id (S (next_id st))
          (with_dom (modal_dom title foot withNote (dom st)) st))).



Local Open Scope nat_scope.

(** The promises a step settles. *)
Definition settled (out : list output) : list nat :=
  flat_map (fun o => match o with OSettled rid _ => [rid] | _ => [] end) out.

(** A piece of script that leaves the modal buttons alone and settles no
    promise. *)
Definition quiet {A : Type} (m : M A) : Prop :=
  forall st,
    modalOk_onclick (snd (fst (m st))) = modalOk_onclick st
    /\ modalCancel_onclick (snd (fst (m st))) = modalCancel_onclick st
    /\ next_id st <= next_id (snd (fst (m st)))
    /\ settled (snd (m st)) = [].

(** A piece of script that is quiet or else ends by wiring a fresh
    promise to both buttons. *)
Definition quiet_or_opens (m : M unit) : Prop :=
  forall st,
    next_id st <= next_id (snd (fst (m st)))
    /\ settled (snd (m st)) = []
    /\ ((modalOk_onclick (snd (fst (m st))) = modalOk_onclick st
         /\ modalCancel_onclick (snd (fst (m st))) = modalCancel_onclick st)
        \/ exists rid k,
             next_id st <= rid < next_id (snd (fst (m st)))
             /\ modalOk_onclick (snd (fst (m st))) = Some (rid, k)
             /\ modalCancel_onclick (snd (fst (m st))) = Some (rid, k)).

(** How one step may change the wiring of the modal buttons: not at all,
    by wiring a fresh promise to both, or by settling the wired promise
    and unwiring both. *)
Definition modal_step (st st' : state) (out : list output) : Prop :=
  next_id st <= next_id st'
  /\ ((modalOk_onclick st' = modalOk_onclick st
       /\ modalCancel_onclick st' = modalCancel_onclick st
       /\ settled out = [])
      \/ (exists rid k,
            next_id st <= rid < next_id st'
            /\ modalOk_onclick st' = Some (rid, k)
            /\ modalCancel_onclick st' = Some (rid, k)
            /\ settled out = [])
      \/ (exists rid k,
            (modalOk_onclick st = Some (rid, k) \/ modalCancel_onclick st = Some (rid, k))
            /\ modalOk_onclick st' = None
            /\ modalCancel_onclick st' = None
            /\ settled out = [rid])).

(** The buttons are wired to the same promise, one that has been created. *)
Definition modal_inv (st : state) : Prop :=
  modalOk_onclick st = modalCancel_onclick st
  /\ forall rid k, modalOk_onclick st = Some (rid, k) -> rid < next_id st.

(** A promise created earlier and not wired to the buttons. *)
Definition stale (rid : nat) (st : state) : Prop :=
  rid < next_id st /\ forall k, modalOk_onclick st <> Some (rid, k).

(** The requests the human can still answer: those wired to a button. *)
Definition outstanding (st : state) : list nat :=
  match modalOk_onclick st, modalCancel_onclick st with
  | Some (a, _), Some (b, _) => if Nat.eqb a b then [a] else [a; b]
  | Some (a, _), None => [a]
  | None, Some (b, _) => [b]
  | None, None => []
  end.

(** The requests a step hands to [fetch]. *)
Definition fetched (out : list output) : list request :=
  flat_map (fun o => match o with OFetch _ req => [req] | _ => [] end) out.

(** A piece of script that calls [fetch] at most through one final [api]
    call made under the token it started with, passing no headers of its
    own. *)
Definition fetches_with (tok : jsval) (out : list output) : Prop :=
  forall req, In req (fetched out) ->
    exists p o, req = api_request tok p o /\ opt_headers o = None.

(** A piece of script that does not call [fetch]. *)
Definition silent {A : Type} (m : M A) : Prop :=
  forall st, fetched (snd (m st)) = [].

(** The credential header [api] builds for a stored token. *)
Definition bearer (tok : jsval) : option jsstring :=
  if truthy tok then Some (js "Bearer " ++ to_string tok) else None.

(** ** Sample data *)

Definition alice : user :=
  User (VStr (js "alice")) (VStr (js "Alice")) (VStr (js "#ff0066")).

Definition users_reply : option response :=
  Some (Response 200 (Some (JData VUndefined VUndefined VUndefined VUndefined
                                  VUndefined (Some [alice])))).

Definition login_reply : option response :=
  Some (Response 200 (Some (JData VUndefined (VStr (js "t0k3n")) (user_id alice)
                                  (user_name alice) (user_color alice) None))).

(** The page after the user list has arrived and alice has logged in. *)
Definition alice_session : state :=
  fst (run loaded [Reply 0 users_reply;
                   LoginClick (js "alice") (js "1234");
                   Reply 1 login_reply]).

Definition alice_event : event :=
  Event (js "8") (js "Meeting") (VStr (js "alice")) (VStr (js "Alice")) VUndefined.

Definition bob_event : event :=
  Event (js "7") (js "Standup") (VStr (js "bob")) (VStr (js "Bob")) (VStr (js "room 2")).

Definition a_selection : sel_info :=
  SelInfo (js "2026-01-10") (js "2026-01-11") true.

Definition bob : user :=
  User (VStr (js "bob")) (VStr (js "Bob")) (VStr (js "#00ccff")).

Definition bob_login_reply : option response :=
  Some (Response 200 (Some (JData VUndefined (VStr (js "b0b")) (user_id bob)
                                  (user_name bob) (user_color bob) None))).

(** A failed reply with the given status and [detail]. *)
Definition failure (st : N) (d : jsstring) : response :=
  Response st (Some (JData (VStr d) VUndefined VUndefined VUndefined VUndefined None)).



(** The page while alice confirms an edit of her event, and once she has
    typed the passcode and pressed OK. *)
Definition confirming_edit : state :=
  fst (run alice_session [CalendarEventClick alice_event (Some (js "edit")) None]).

Definition updating : state :=
  fst (run confirming_edit [ModalType PassField (js "1234"); ModalOkClick]).

(** The page while alice confirms a new event. *)
Definition confirming_create : state :=
  fst (run loaded [Reply 0 users_reply;
                   LoginClick (js "alice") (js "1234");
                   Reply 1 login_reply;
                   CalendarSelect a_selection (Some (js "Dentist"))]).

(** ** What [trim] computes *)

Lemma trimStart_split (s : jsstring) :
  exists l, s = l ++ trimStart s /\ blank l = true.
Proof.
  induction s as [|c r [l [Hl Hb]]]; simpl.
  - exists []. split; reflexivity.
  - destruct (is_ws c) eqn:Hc.
    + exists (c :: l). simpl. rewrite Hc, Hb. split; [congruence | reflexivity].
    + exists []. split; reflexivity.
Qed.


Lemma trimStart_blank (s : jsstring) : trimStart s = [] <-> blank s = true.
Proof.
  induction s as [|c r IH]; simpl; [tauto|].
  destruct (is_ws c); simpl; [exact IH|].
  split; discriminate.
Qed.

Lemma blank_rev (s : jsstring) : blank (rev s) = blank s.
Proof.
  unfold blank. induction s as [|c r IH]; simpl; [reflexivity|].
  rewrite forallb_app, IH. simpl. rewrite andb_true_r. apply andb_comm.
Qed.





Lemma trim_blank (s : jsstring) : trim s = [] <-> blank s = true.
Proof.
  unfold trim, trimEnd. split.
  - intros H.
    assert (Hs : trimStart (rev (trimStart s)) = []).
    { rewrite <- (rev_involutive (trimStart (rev (trimStart s)))), H. reflexivity. }
    apply trimStart_blank in Hs. rewrite blank_rev in Hs.
    destruct (trimStart_split s) as [l [Hl Hb]].
    rewrite Hl. unfold blank in *. rewrite forallb_app, Hb, Hs. reflexivity.
  - intros H. apply trimStart_blank in H. rewrite H. reflexivity.
Qed.

Lemma js_or_note (n : jsstring) (d : jsval) :
  js_or (VStr (trim n)) d = if blank n then d else VStr (trim n).
Proof.
  unfold js_or. destruct (blank n) eqn:Hb.
  - apply trim_blank in Hb. rewrite Hb. reflexivity.
  - destruct (trim n) eqn:Ht; [|reflexivity].
    apply trim_blank in Ht. congruence.
Qed.

(** ** Steps, one handler at a time *)

Lemma exec_api (st : state) (p : path) (o : options) (k : api_kont) :
  exec (api p o k) st
  = (with_next_id (S (next_id st))
       (with_pending (<[next_id st := k]> (pending st)) st),
     [OFetch (next_id st) (api_request (token st) p o)]).
Proof. reflexivity. Qed.

Lemma step_dispatch (st : state) (i : input) : step st i = exec (dispatch st i) st.
Proof.
  unfold step, exec, handle, get, mbind, M_bind.
  destruct (dispatch st i st) as [[x st'] out]. reflexivity.
Qed.

Lemma step_eventClick (st : state) (ev : event) (a t : option jsstring) :
  step st (CalendarEventClick ev a t)
  = match calendar st with
    | Some _ => exec (eventClick ev a t) st
    | None => (st, [])
    end.
Proof.
  unfold step, exec, handle, dispatch, get, mbind, M_bind.
  destruct (calendar st); [|reflexivity].
  destruct (eventClick ev a t st) as [[x st'] out]. reflexivity.
Qed.

Lemma step_type (st : state) (f : modal_field) (v : jsstring) :
  step st (ModalType f v)
  = (with_dom (<[(field_id f, js "value") := v]> (dom st)) st, []).
Proof. reflexivity. Qed.

Lemma step_ok (st : state) (rid : nat) (k : modal_kont) :
  modalOk_onclick st = Some (rid, k) ->
  step st ModalOkClick
  = (let r := Ok (Confirmation (trim (field_value st (js "modalPass")))
                               (trim (field_value st (js "modalNote")))) in
     (fst (exec (after_modal k r) (closed_modal st)),
      OSettled rid r :: snd (exec (after_modal k r) (closed_modal st)))).
Proof.
  intros H. unfold step, exec, handle, dispatch, get, mbind, M_bind. rewrite H.
  unfold modalOk_click, value_of, get, mbind, M_bind, mret, M_ret.
  unfold cleanup, assign, modify, emit, mbind, M_bind, closed_modal.
  cbv beta iota zeta. cbn [dom with_modalOk with_modalCancel].
  match goal with
  | |- context [after_modal ?k0 ?r ?s] =>
    destruct (after_modal k0 r s) as [[x st'] out]
  end.
  reflexivity.
Qed.

Lemma step_cancel (st : state) (rid : nat) (k : modal_kont) :
  modalCancel_onclick st = Some (rid, k) ->
  step st ModalCancelClick
  = (closed_modal st, [OSettled rid (Throw (Error (Text cancel_text)))]).
Proof.
  intros H. unfold step, exec, handle, dispatch, get, mbind, M_bind. rewrite H. reflexivity.
Qed.

Lemma run_cons (st : state) (i : input) (rest : list input) :
  run st (i :: rest)
  = (fst (run (fst (step st i)) rest),
     snd (step st i) ++ snd (run (fst (step st i)) rest)).
Proof.
  simpl. destruct (step st i) as [st1 o1]. simpl.
  destruct (run st1 rest) as [st2 o2]. reflexivity.
Qed.

Lemma run_nil (st : state) : run st [] = (st, []).
Proof. reflexivity. Qed.

Lemma exec_showModal (title foot : jsval) (withNote : bool) (k : modal_kont)
    (st : state) :
  exec (showModal title foot withNote k) st
  = (opened title foot withNote k st, [OModal (next_id st)]).
Proof. reflexivity. Qed.

(** ** The ownership gate of [eventClick] *)






(** ** [api]: credentials and failures *)

Lemma fetched_app (o1 o2 : list output) : fetched (o1 ++ o2) = fetched o1 ++ fetched o2.
Proof. unfold fetched. apply flat_map_app. Qed.

Lemma silent_ret {A : Type} (a : A) : silent (mret a).
Proof. intros st. reflexivity. Qed.

Lemma silent_bind {A B : Type} (m : M A) (f : A -> M B) :
  silent m -> (forall a, silent (f a)) -> silent (m ≫= f).
Proof.
  intros Hm Hf st. unfold mbind, M_bind.
  specialize (Hm st). destruct (m st) as [[a st1] o1]. simpl in Hm.
  specialize (Hf a st1). destruct (f a st1) as [[b st2] o2]. simpl in *.
  rewrite fetched_app, Hm, Hf. reflexivity.
Qed.

Lemma silent_get : silent get.
Proof. intros st. reflexivity. Qed.

Lemma silent_modify (f : state -> state) : silent (modify f).
Proof. intros st. reflexivity. Qed.

Lemma silent_emit (o : output) : fetched [o] = [] -> silent (emit o).
Proof. intros H st. exact H. Qed.

Ltac silent_tac :=
  repeat match goal with
  | |- silent (mbind _ _) => apply silent_bind; [|intros ?]
  | |- silent (mret _) => apply silent_ret
  | |- silent skip => apply silent_ret
  | |- silent get => apply silent_get
  | |- silent (emit _) => apply silent_emit; reflexivity
  | |- silent (alert _) => apply silent_emit; reflexivity
  | |- silent (modify _) => apply silent_modify
  | |- silent (assign _ _ _) => apply silent_modify
  | |- silent (if ?b then _ else _) => destruct b
  | |- silent (match calendar ?s with _ => _ end) => destruct (calendar s)
  end.

Lemma silent_setMeBadge (t : jsstring) (c : jsval) : silent (setMeBadge t c).
Proof. unfold setMeBadge. silent_tac. Qed.

Lemma silent_catch (e : error) : silent (catch_unless_cancel e).
Proof. unfold catch_unless_cancel. silent_tac. Qed.

Lemma silent_showModal (title foot : jsval) (withNote : bool) (k : modal_kont) :
  silent (showModal title foot withNote k).
Proof. intros st. reflexivity. Qed.

Lemma silent_after_api (k : api_kont) (r : outcome jdata) : silent (after_api k r).
Proof.
  destruct k, r; cbn [after_api]; try destruct (d_users _);
    unfold initCalendar, refetchEvents; silent_tac;
    first [ apply silent_setMeBadge | apply silent_catch ].
Qed.

Lemma silent_logout : silent logoutBtn_onclick.
Proof. unfold logoutBtn_onclick. silent_tac. apply silent_setMeBadge. Qed.

Lemma silent_select (selInfo : sel_info) (a : option jsstring) : silent (select selInfo a).
Proof. unfold select, prompt. silent_tac. apply silent_showModal. Qed.

Lemma silent_eventClick (ev : event) (a t : option jsstring) :
  silent (eventClick ev a t).
Proof.
  unfold eventClick, prompt. apply silent_bind; [apply silent_get|intros st].
  cbv zeta. silent_tac; apply silent_showModal.
Qed.

Lemma exec_silent (m : M unit) (st : state) (tok : jsval) :
  silent m -> fetches_with tok (snd (exec m st)).
Proof.
  intros H req Hin. specialize (H st). unfold exec in Hin.
  destruct (m st) as [[x st'] out]. simpl in *. rewrite H in Hin. destruct Hin.
Qed.

Lemma api_fetches (st : state) (p : path) (m : option http_method) (b : option body)
    (k : api_kont) :
  fetches_with (token st) (snd (exec (api p (Options m b None) k) st)).
Proof.
  rewrite exec_api. intros req [<-|[]]. eexists _, _. split; reflexivity.
Qed.

Lemma after_modal_fetches (st : state) (k : modal_kont) (r : outcome confirmation) :
  fetches_with (token st) (snd (exec (after_modal k r) st)).
Proof.
  destruct r as [c|e]; cbn [after_modal].
  - destruct k; apply api_fetches.
  - apply exec_silent, silent_catch.
Qed.

Lemma step_fetches (st : state) (i : input) :
  fetches_with (token st) (snd (step st i)).
Proof.
  destruct i as [id reply | sv pv | | s e | selInfo a | ev a t | f v | | ].
  - rewrite step_dispatch. cbn [dispatch].
    destruct (pending st !! id);
      [apply exec_silent, silent_bind;
         [apply silent_modify | intros _; apply silent_after_api]
      | apply exec_silent, silent_ret].
  - rewrite step_dispatch. cbn [dispatch].
    destruct (buttons_wired st); [apply api_fetches | apply exec_silent, silent_ret].
  - rewrite step_dispatch. cbn [dispatch]. apply exec_silent.
    destruct (buttons_wired st); [apply silent_logout | apply silent_ret].
  - rewrite step_dispatch. cbn [dispatch].
    destruct (calendar st); [apply api_fetches | apply exec_silent, silent_ret].
  - rewrite step_dispatch. cbn [dispatch]. apply exec_silent.
    destruct (calendar st); [apply silent_select | apply silent_ret].
  - rewrite step_dispatch. cbn [dispatch]. apply exec_silent.
    destruct (calendar st); [apply silent_eventClick | apply silent_ret].
  - rewrite step_dispatch. cbn [dispatch]. apply exec_silent, silent_modify.
  - destruct (modalOk_onclick st) as [[rid k]|] eqn:Hw.
    + rewrite (step_ok _ _ _ Hw). cbv zeta. cbn [fst snd].
      intros req Hin. cbn [fetched flat_map app] in Hin.
      exact (after_modal_fetches (closed_modal st) k _ req Hin).
    + rewrite step_dispatch. cbn [dispatch]. rewrite Hw. apply exec_silent, silent_ret.
  - destruct (modalCancel_onclick st) as [[rid k]|] eqn:Hw.
    + rewrite (step_cancel _ _ _ Hw). intros req [].
    + rewrite step_dispatch. cbn [dispatch]. rewrite Hw. apply exec_silent, silent_ret.
Qed.

Lemma api_request_bearer (tok : jsval) (p : path) (o : options) :
  opt_headers o = None ->
  req_headers (api_request tok p o) !! js "Authorization" = bearer tok.
Proof.
  intros H. unfold api_request, bearer. rewrite H. cbn [default from_option].
  assert (Hne : js "Content-Type" <> js "Authorization") by discriminate.
  destruct (truthy tok), (opt_body o);
    rewrite ?(lookup_insert_ne _ _ _ _ Hne), ?lookup_insert_eq, ?lookup_empty;
    reflexivity.
Qed.

(** C2, as the code has it: every call of [api] reaches [fetch], exactly
    once and whatever the session state; the request carries
    [Authorization: Bearer <token>] whenever the stored token is a
    non-empty string, and otherwise only the caller's own headers.  For
    the script as a whole: every request any step hands to [fetch]
    carries the bearer header of the token stored when the step began,
    and no such header when no non-empty token is stored. *)
Theorem api_always_fetches_and_attaches_token
    (st : state) (p : path) (o : options) (k : api_kont)
    (st2 : state) (i : input) (req : request) :
  snd (exec (api p o k) st) = [OFetch (next_id st) (api_request (token st) p o)]
  /\ req_headers (api_request (token st) p o) !! js "Authorization"
     = (if truthy (token st)
        then Some (js "Bearer " ++ to_string (token st))
        else default ∅ (opt_headers o) !! js "Authorization")
  /\ (In req (fetched (snd (step st2 i))) ->
      req_headers req !! js "Authorization" = bearer (token st2)).
Proof.
  split; [reflexivity|]. split.
  - unfold api_request; simpl.
    assert (Hne : js "Content-Type" <> js "Authorization") by discriminate.
    destruct (truthy (token st)), (opt_body o);
      rewrite ?(lookup_insert_ne _ _ _ _ Hne), ?lookup_insert_eq; reflexivity.
  - intros Hin. destruct (step_fetches st2 i req Hin) as (p' & o' & -> & Hh).
    apply api_request_bearer, Hh.
Qed.

Lemma api_always_fetches_and_attaches_token_witness :
  In (api_request (token alice_session)
                  (EventsRangePath (js "2026-01-01") (js "2026-02-01")) no_options)
     (fetched (snd (step alice_session
                         (CalendarEvents (js "2026-01-01") (js "2026-02-01")))))
  /\ req_headers (api_request (token alice_session)
                    (EventsRangePath (js "2026-01-01") (js "2026-02-01")) no_options)
       !! js "Authorization"
     = Some (js "Bearer t0k3n").
Proof.
  assert (Hin : In (api_request (token alice_session)
                      (EventsRangePath (js "2026-01-01") (js "2026-02-01")) no_options)
                   (fetched (snd (step alice_session
                      (CalendarEvents (js "2026-01-01") (js "2026-02-01"))))))
    by (left; reflexivity).
  split; [exact Hin|].
  exact (proj2 (proj2 (api_always_fetches_and_attaches_token
                         pristine UsersPath no_options KInit
                         alice_session
                         (CalendarEvents (js "2026-01-01") (js "2026-02-01"))
                         _) ) Hin).
Defined.

(** C2, counterexample to the fail-fast half: alice opens the create
    flow, logs out while the confirmation modal is open, then confirms.
    No session exists, yet the create call is handed to [fetch], without
    credentials. *)
Lemma mutation_without_session_reaches_network :
  let st := fst (run alice_session
                     [CalendarSelect a_selection (Some (js "Dentist"));
                      LogoutClick;
                      ModalType PassField (js "1234")]) in
  current st = None
  /\ exists req,
       snd (step st ModalOkClick)
       = [OSettled 2 (Ok (Confirmation (js "1234") [])); OFetch 3 req]
       /\ req_path req = EventsPath
       /\ req_method req = Some POST
       /\ req_headers req !! js "Authorization" = None.
Proof.
  simpl. split; [reflexivity|].
  eexists. split; [vm_compute; reflexivity|].
  split; [reflexivity|]. split; [reflexivity|]. vm_compute. reflexivity.
Qed.

(** A confirmation is not tied to the session that opened it: bob opens
    the delete confirmation for his event and logs out, alice logs in and
    presses OK; the delete call for bob's event goes out under alice's
    token.  The gate of [eventClick] is passed when the modal is opened,
    not when it is answered. *)
Example confirmation_outlives_session :
  let st := fst (run loaded
                     [Reply 0 users_reply;
                      LoginClick (js "bob") (js "4321");
                      Reply 1 bob_login_reply;
                      CalendarEventClick bob_event (Some (js "delete")) None;
                      LogoutClick;
                      LoginClick (js "alice") (js "1234");
                      Reply 3 login_reply;
                      ModalType PassField (js "1234")]) in
  me st = Some alice
  /\ ownerUserId bob_event <> user_id alice
  /\ exists req,
       snd (step st ModalOkClick)
       = [OSettled 2 (Ok (Confirmation (js "1234") [])); OFetch 4 req]
       /\ req_path req = EventPasscodePath (js "7") (js "1234")
       /\ req_method req = Some DELETE
       /\ req_headers req !! js "Authorization" = Some (js "Bearer t0k3n").
Proof.
  simpl. split; [reflexivity|]. split; [discriminate|].
  eexists. split; [vm_compute; reflexivity|].
  split; [reflexivity|]. split; [reflexivity|]. vm_compute. reflexivity.
Qed.

Lemma api_result_failure (res : response) :
  ok res = false ->
  api_result (Some res)
  = Throw (Error (Text (failure_message (default empty_object (json res))))).
Proof.
  intros H. unfold api_result, failure_message, js_or. rewrite H. simpl.
  destruct (detail (default empty_object (json res))) as [| |[|c s]]; reflexivity.
Qed.




(** ** Failed logins *)




(** ** Cancelling a confirmation *)

Lemma exec_catch_unless_cancel (e : error) (st : state) :
  exec (catch_unless_cancel e) st
  = (st, if bool_decide (message e = Text cancel_text) then [] else [OAlert (message e)]).
Proof.
  unfold exec, catch_unless_cancel. destruct (bool_decide _); reflexivity.
Qed.

(** C3, as the code has it: cancelling rejects the request with the error
    whose message is "취소"; the awaiting caller then does nothing more: no
    Gateway call is issued or left pending and nothing is alerted.  The
    cancellation is told apart from other failures by that message alone:
    a failed mutation call is alerted unless its message is "취소" too. *)
Theorem cancel_is_silent_and_known_by_its_message
    (st : state) (rid : nat) (k : modal_kont)
    (st2 : state) (id : nat) (ak : api_kont) (res : response) :
  modalCancel_onclick st = Some (rid, k) ->
  pending st2 !! id = Some ak ->
  is_mutation ak = true ->
  ok res = false ->
  step st ModalCancelClick
    = (closed_modal st, [OSettled rid (Throw (Error (Text cancel_text)))])
  /\ pending (fst (step st ModalCancelClick)) = pending st
  /\ next_id (fst (step st ModalCancelClick)) = next_id st
  /\ modalOk_onclick (fst (step st ModalCancelClick)) = None
  /\ modalCancel_onclick (fst (step st ModalCancelClick)) = None
  /\ snd (step st2 (Reply id (Some res)))
     = (if bool_decide (failure_message (default empty_object (json res)) = cancel_text)
        then []
        else [OAlert (Text (failure_message (default empty_object (json res))))]).
Proof.
  intros Hc Hp Hm Hr.
  rewrite (step_cancel _ _ _ Hc). repeat (split; [reflexivity|]).
  unfold step, exec, handle, dispatch, get, mbind, M_bind.
  rewrite Hp, (api_result_failure _ Hr).
  set (m := failure_message _).
  destruct ak; try discriminate Hm; simpl;
    unfold catch_unless_cancel; simpl;
    destruct (decide (m = cancel_text)) as [->|Hne];
    rewrite ?bool_decide_eq_true_2, ?bool_decide_eq_false_2 by congruence;
    reflexivity.
Qed.

Lemma cancel_is_silent_and_known_by_its_message_witness :
  modalCancel_onclick confirming_edit = Some (2%nat, MEdit alice_event (js "Meeting"))
  /\ pending updating !! 3%nat = Some KEdit
  /\ ok (failure 403 (js "not the owner")) = false
  /\ step confirming_edit ModalCancelClick
     = (closed_modal confirming_edit,
        [OSettled 2 (Throw (Error (Text cancel_text)))])
  /\ snd (step updating (Reply 3 (Some (failure 403 (js "not the owner")))))
     = [OAlert (Text (js "not the owner"))].
Proof.
  assert (Hc : modalCancel_onclick confirming_edit
               = Some (2%nat, MEdit alice_event (js "Meeting"))) by reflexivity.
  assert (Hp : pending updating !! 3%nat = Some KEdit) by reflexivity.
  assert (Hr : ok (failure 403 (js "not the owner")) = false) by reflexivity.
  pose proof (cancel_is_silent_and_known_by_its_message
                confirming_edit 2 (MEdit alice_event (js "Meeting"))
                updating 3 KEdit (failure 403 (js "not the owner"))
                Hc Hp eq_refl Hr) as [H1 [_ [_ [_ [_ H2]]]]].
  split; [exact Hc|]. split; [exact Hp|]. split; [exact Hr|].
  split; [exact H1 | exact H2].
Defined.

(** C3, counterexample to the distinctness of Cancelled: a Forbidden
    reply whose [detail] is "취소" raises the very error a cancellation
    raises, and the caller swallows it like one. *)
Lemma gateway_failure_taken_for_cancel :
  ok (failure 403 cancel_text) = false
  /\ api_result (Some (failure 403 cancel_text)) = Throw (Error (Text cancel_text))
  /\ snd (step confirming_edit ModalCancelClick)
     = [OSettled 2 (Throw (Error (Text cancel_text)))]
  /\ snd (step updating (Reply 3 (Some (failure 403 cancel_text)))) = [].
Proof. repeat split; reflexivity. Qed.

(** ** Submitting a confirmation *)



(** ** The edit flow *)

Lemma edit_is_not_delete : strict_eq (VStr (js "edit")) (VStr (js "delete")) = false.
Proof. vm_compute. reflexivity. Qed.

Lemma edit_is_edit : strict_eq (VStr (js "edit")) (VStr (js "edit")) = true.
Proof. vm_compute. reflexivity. Qed.

Lemma exec_eventClick_edit (st : state) (u : user) (ev : event)
    (title_answer : option jsstring) :
  me st = Some u ->
  ownerUserId ev = user_id u ->
  exec (eventClick ev (Some (js "edit")) title_answer) st
  = (opened (VStr (js "수정: 수정 암호 확인"))
            (VStr (js "작성자만 수정 가능 + 암호도 필요. 네가 원한 지옥 룰."))
            true (MEdit ev (edit_title ev title_answer)) st,
     [OPrompt (js "입력: edit / delete") None;
      OPrompt (js "새 제목") (Some (ev_title ev));
      OModal (next_id st)]).
Proof.
  intros Hme Hown.
  unfold exec, eventClick, get, prompt, emit, mbind, M_bind, mret, M_ret.
  cbv beta iota zeta.
  rewrite Hme, Hown. unfold strict_eq at 1.
  rewrite bool_decide_eq_true_2 by reflexivity.
  cbn [negb truthy]. rewrite edit_is_not_delete, edit_is_edit.
  destruct title_answer; reflexivity.
Qed.

Ltac keys_differ := let E := fresh in intros E; vm_compute in E; discriminate E.

Ltac read_fields :=
  unfold field_value; cbn [dom with_dom opened with_modalOk with_modalCancel with_next_id modal_dom];
  repeat first [ rewrite lookup_insert_eq
               | rewrite lookup_insert_ne by keys_differ ];
  cbn [default from_option id].

Lemma kept_note_eq (ev : event) (n : jsstring) :
  js_or (js_or (VStr (trim n)) (ev_note ev)) VNull = kept_note ev n.
Proof.
  rewrite js_or_note. unfold kept_note, js_or. destruct (blank n) eqn:Hb.
  - reflexivity.
  - destruct (trim n) eqn:Ht; [apply trim_blank in Ht; congruence | reflexivity].
Qed.

(** C8, as the code has it: the owner chooses "edit", answers the title
    prompt, fills the modal and presses OK.  The update call carries the
    current title when the title prompt was dismissed and otherwise the
    submitted text as it is, the empty string included; it carries the
    trimmed note, or, when the note box is blank, the event's existing
    note if that is a non-empty string and null if not. *)
Theorem edit_sends_title_and_note
    (st : state) (u : user) (ev : event) (title_answer : option jsstring)
    (p n : jsstring) :
  me st = Some u ->
  ownerUserId ev = user_id u ->
  calendar st = Some tt ->
  snd (run st [CalendarEventClick ev (Some (js "edit")) title_answer;
               ModalType PassField p; ModalType NoteField n; ModalOkClick])
  = [OPrompt (js "입력: edit / delete") None;
     OPrompt (js "새 제목") (Some (ev_title ev));
     OModal (next_id st);
     OSettled (next_id st) (Ok (Confirmation (trim p) (trim n)));
     OFetch (S (next_id st))
       (api_request (token st) (EventPath (ev_id ev))
          (Options (Some PUT)
             (Some (UpdateBody (edit_title ev title_answer) (kept_note ev n) (trim p)))
             None))].
Proof.
  intros Hme Hown Hcal.
  rewrite run_cons, step_eventClick, Hcal, (exec_eventClick_edit _ _ _ _ Hme Hown).
  cbn [fst snd].
  rewrite run_cons, step_type. cbn [fst snd].
  rewrite run_cons, step_type. cbn [fst snd].
  rewrite run_cons, run_nil.
  erewrite step_ok by reflexivity.
  cbn [fst snd after_modal conf_passcode conf_note].
  rewrite exec_api. cbn [fst snd].
  read_fields.
  rewrite kept_note_eq. reflexivity.
Qed.

Lemma edit_sends_title_and_note_witness :
  me alice_session = Some alice
  /\ ownerUserId alice_event = user_id alice
  /\ calendar alice_session = Some tt
  /\ exists req,
       last (snd (run alice_session
                      [CalendarEventClick alice_event (Some (js "edit")) None;
                       ModalType PassField (js "1234");
                       ModalType NoteField (js " moved ");
                       ModalOkClick]))
       = Some (OFetch 3 req)
       /\ req_body req = Some (UpdateBody (js "Meeting") (VStr (js "moved")) (js "1234")).
Proof.
  assert (Hme : me alice_session = Some alice) by reflexivity.
  assert (Hown : ownerUserId alice_event = user_id alice) by reflexivity.
  assert (Hcal : calendar alice_session = Some tt) by reflexivity.
  split; [exact Hme|]. split; [exact Hown|]. split; [exact Hcal|].
  rewrite (edit_sends_title_and_note alice_session alice alice_event None
             (js "1234") (js " moved ") Hme Hown Hcal).
  eexists. split; reflexivity.
Defined.

(** C8, counterexample: alice empties the title prompt and submits it.
    The update call carries the empty title, not the current one. *)
Lemma emptied_title_is_sent_empty :
  ev_title alice_event = js "Meeting"
  /\ exists req,
       last (snd (run alice_session
                      [CalendarEventClick alice_event (Some (js "edit")) (Some []);
                       ModalType PassField (js "1234");
                       ModalOkClick]))
       = Some (OFetch 3 req)
       /\ req_path req = EventPath (js "8")
       /\ req_method req = Some PUT
       /\ req_body req = Some (UpdateBody [] VNull (js "1234")).
Proof.
  split; [reflexivity|]. eexists. split; [vm_compute; reflexivity|].
  repeat split; reflexivity.
Qed.

(** ** Logout *)








(** ** One confirmation request at a time *)

Lemma settled_app (o1 o2 : list output) : settled (o1 ++ o2) = settled o1 ++ settled o2.
Proof. unfold settled. apply flat_map_app. Qed.

Lemma In_settled (rid : nat) (r : outcome confirmation) (out : list output) :
  In (OSettled rid r) out -> In rid (settled out).
Proof.
  intros H. unfold settled. apply in_flat_map. exists (OSettled rid r).
  split; [exact H | left; reflexivity].
Qed.

Lemma quiet_ret {A : Type} (a : A) : quiet (mret a).
Proof. intros st. repeat split; reflexivity || apply le_n. Qed.

Lemma quiet_bind {A B : Type} (m : M A) (f : A -> M B) :
  quiet m -> (forall a, quiet (f a)) -> quiet (m ≫= f).
Proof.
  intros Hm Hf st. unfold mbind, M_bind.
  specialize (Hm st). destruct (m st) as [[a st1] o1]. simpl in Hm.
  specialize (Hf a st1). destruct (f a st1) as [[b st2] o2]. simpl in *.
  destruct Hm as (H1 & H2 & H3 & H4), Hf as (G1 & G2 & G3 & G4).
  rewrite settled_app, H4, G4. repeat split; try congruence. lia.
Qed.

Lemma quiet_get : quiet get.
Proof. intros st. repeat split; reflexivity || apply le_n. Qed.

Lemma quiet_modify (f : state -> state) :
  (forall st, modalOk_onclick (f st) = modalOk_onclick st
              /\ modalCancel_onclick (f st) = modalCancel_onclick st
              /\ next_id st <= next_id (f st)) ->
  quiet (modify f).
Proof. intros H st. destruct (H st) as (H1 & H2 & H3). repeat split; assumption. Qed.

Lemma quiet_emit (o : output) : settled [o] = [] -> quiet (emit o).
Proof. intros H st. repeat split; try reflexivity. exact H. Qed.

Lemma quiet_assign (el prop v : jsstring) : quiet (assign el prop v).
Proof. intros st. repeat split; simpl; lia. Qed.

Lemma quiet_api (p : path) (o : options) (k : api_kont) : quiet (api p o k).
Proof. intros st. repeat split; simpl; lia. Qed.

Ltac quiet_tac :=
  repeat match goal with
  | |- quiet (mbind _ _) => apply quiet_bind; [|intros ?]
  | |- quiet (mret _) => apply quiet_ret
  | |- quiet skip => apply quiet_ret
  | |- quiet get => apply quiet_get
  | |- quiet (emit _) => apply quiet_emit; reflexivity
  | |- quiet (alert _) => apply quiet_emit; reflexivity
  | |- quiet (modify _) => apply quiet_modify; intros ?; repeat split; apply le_n
  | |- quiet (assign _ _ _) => apply quiet_assign
  | |- quiet (api _ _ _) => apply quiet_api
  | |- quiet (if ?b then _ else _) => destruct b
  | |- quiet (match calendar ?s with _ => _ end) => destruct (calendar s)
  end.

Lemma quiet_alert (t : text) : quiet (alert t).
Proof. quiet_tac. Qed.

Lemma quiet_prompt (msg : jsstring) (d a : option jsstring) : quiet (prompt msg d a).
Proof. unfold prompt. quiet_tac. Qed.

Lemma quiet_setMeBadge (t : jsstring) (c : jsval) : quiet (setMeBadge t c).
Proof. unfold setMeBadge. quiet_tac. Qed.

Lemma quiet_catch (e : error) : quiet (catch_unless_cancel e).
Proof. unfold catch_unless_cancel. quiet_tac. Qed.

Lemma quiet_refetchEvents : quiet refetchEvents.
Proof. unfold refetchEvents. quiet_tac. apply quiet_catch. Qed.

Lemma quiet_after_modal (k : modal_kont) (r : outcome confirmation) :
  quiet (after_modal k r).
Proof.
  unfold after_modal. destruct r; [destruct k; apply quiet_api | apply quiet_catch].
Qed.

Lemma quiet_after_api (k : api_kont) (r : outcome jdata) : quiet (after_api k r).
Proof.
  destruct k, r; cbn [after_api]; try destruct (d_users _); unfold initCalendar;
    quiet_tac;
    first [ apply quiet_setMeBadge | apply quiet_refetchEvents | apply quiet_catch ].
Qed.

Lemma quiet_logout : quiet logoutBtn_onclick.
Proof. unfold logoutBtn_onclick. quiet_tac. apply quiet_setMeBadge. Qed.

Lemma quiet_is_quiet_or_opens (m : M unit) : quiet m -> quiet_or_opens m.
Proof.
  intros H st. destruct (H st) as (H1 & H2 & H3 & H4).
  split; [exact H3|]. split; [exact H4|]. left. split; assumption.
Qed.

Lemma quiet_or_opens_bind {A : Type} (m : M A) (f : A -> M unit) :
  quiet m -> (forall a, quiet_or_opens (f a)) -> quiet_or_opens (m ≫= f).
Proof.
  intros Hm Hf st. unfold mbind, M_bind.
  specialize (Hm st). destruct (m st) as [[a st1] o1]. simpl in Hm.
  specialize (Hf a st1). destruct (f a st1) as [[b st2] o2]. simpl in *.
  destruct Hm as (H1 & H2 & H3 & H4), Hf as (G3 & G4 & G).
  rewrite settled_app, H4, G4. split; [lia|]. split; [reflexivity|].
  destruct G as [[G1 G2] | (rid & k & Hr & G1 & G2)].
  - left. split; congruence.
  - right. exists rid, k. repeat split; try assumption; lia.
Qed.

Lemma showModal_opens (title foot : jsval) (withNote : bool) (k : modal_kont) :
  quiet_or_opens (showModal title foot withNote k).
Proof.
  intros st. split; [simpl; lia|]. split; [reflexivity|].
  right. exists (next_id st), k. repeat split; simpl; lia.
Qed.

Lemma select_opens (selInfo : sel_info) (a : option jsstring) :
  quiet_or_opens (select selInfo a).
Proof.
  unfold select. apply quiet_or_opens_bind; [apply quiet_prompt|intros title].
  destruct (negb (truthy title));
    [apply quiet_is_quiet_or_opens, quiet_ret | apply showModal_opens].
Qed.

Lemma eventClick_opens (ev : event) (a t : option jsstring) :
  quiet_or_opens (eventClick ev a t).
Proof.
  unfold eventClick. apply quiet_or_opens_bind; [apply quiet_get|intros st].
  cbv zeta. destruct (negb _); [apply quiet_is_quiet_or_opens, quiet_alert|].
  apply quiet_or_opens_bind; [apply quiet_prompt|intros action].
  destruct (negb _); [apply quiet_is_quiet_or_opens, quiet_ret|].
  destruct (strict_eq action _); [apply showModal_opens|].
  destruct (strict_eq action _); [|apply quiet_is_quiet_or_opens, quiet_alert].
  apply quiet_or_opens_bind; [apply quiet_prompt|intros answer].
  apply showModal_opens.
Qed.

Lemma exec_quiet (m : M unit) (st : state) :
  quiet m -> modal_step st (fst (exec m st)) (snd (exec m st)).
Proof.
  intros H. specialize (H st). unfold exec.
  destruct (m st) as [[x st'] out]. simpl in *.
  destruct H as (H1 & H2 & H3 & H4). split; [exact H3|]. left. repeat split; assumption.
Qed.

Lemma exec_quiet_or_opens (m : M unit) (st : state) :
  quiet_or_opens m -> modal_step st (fst (exec m st)) (snd (exec m st)).
Proof.
  intros H. specialize (H st). unfold exec.
  destruct (m st) as [[x st'] out]. simpl in *.
  destruct H as (H3 & H4 & [[H1 H2] | (rid & k & Hr & H1 & H2)]); (split; [exact H3|]).
  - left. repeat split; assumption.
  - right. left. exists rid, k. repeat split; try assumption; lia.
Qed.

Lemma step_changes_modal (st : state) (i : input) :
  modal_step st (fst (step st i)) (snd (step st i)).
Proof.
  destruct i as [id reply | sv pv | | s e | selInfo a | ev a t | f v | | ].
  - rewrite step_dispatch. apply exec_quiet. cbn [dispatch].
    destruct (pending st !! id); [|apply quiet_ret].
    apply quiet_bind; [quiet_tac | intros _; apply quiet_after_api].
  - rewrite step_dispatch. apply exec_quiet. cbn [dispatch].
    destruct (buttons_wired st); [apply quiet_api | apply quiet_ret].
  - rewrite step_dispatch. apply exec_quiet. cbn [dispatch].
    destruct (buttons_wired st); [apply quiet_logout | apply quiet_ret].
  - rewrite step_dispatch. apply exec_quiet. cbn [dispatch].
    destruct (calendar st); [apply quiet_api | apply quiet_ret].
  - rewrite step_dispatch. apply exec_quiet_or_opens. cbn [dispatch].
    destruct (calendar st);
      [apply select_opens | apply quiet_is_quiet_or_opens, quiet_ret].
  - rewrite step_dispatch. apply exec_quiet_or_opens. cbn [dispatch].
    destruct (calendar st);
      [apply eventClick_opens | apply quiet_is_quiet_or_opens, quiet_ret].
  - rewrite step_dispatch. apply exec_quiet. cbn [dispatch]. apply quiet_assign.
  - destruct (modalOk_onclick st) as [[rid k]|] eqn:Hw.
    + rewrite (step_ok _ _ _ Hw). cbv zeta. cbn [fst snd].
      unfold exec.
      match goal with
      | |- context [after_modal k ?r (closed_modal st)] =>
        pose proof (quiet_after_modal k r (closed_modal st)) as Q;
        destruct (after_modal k r (closed_modal st)) as [[y st'] out]
      end.
      simpl in Q. destruct Q as (Q1 & Q2 & Q3 & Q4). cbn [fst snd].
      split; [exact Q3|]. right. right. exists rid, k.
      split; [left; exact Hw|]. split; [exact Q1|]. split; [exact Q2|].
      change (settled (OSettled rid _ :: out)) with (rid :: settled out).
      rewrite Q4. reflexivity.
    + rewrite step_dispatch. apply exec_quiet. cbn [dispatch]. rewrite Hw.
      apply quiet_ret.
  - destruct (modalCancel_onclick st) as [[rid k]|] eqn:Hw.
    + rewrite (step_cancel _ _ _ Hw). cbn [fst snd].
      split; [apply le_n|]. right. right. exists rid, k.
      split; [right; exact Hw|]. repeat split.
    + rewrite step_dispatch. apply exec_quiet. cbn [dispatch]. rewrite Hw.
      apply quiet_ret.
Qed.

Lemma modal_inv_loaded : modal_inv loaded.
Proof. split; [reflexivity | intros rid k H; discriminate H]. Qed.

Lemma modal_inv_step (st : state) (i : input) :
  modal_inv st -> modal_inv (fst (step st i)).
Proof.
  intros [Heq Hlt].
  destruct (step_changes_modal st i)
    as [Hn [(H1 & H2 & _) | [(rid & k & Hr & H1 & H2 & _) | (rid & k & _ & H1 & H2 & _)]]].
  - split; [congruence|]. intros rid k H. rewrite H1 in H.
    specialize (Hlt _ _ H). lia.
  - split; [congruence|]. intros rid' k' H. rewrite H1 in H.
    injection H as <- <-. lia.
  - split; [congruence|]. intros rid' k' H. rewrite H1 in H. discriminate H.
Qed.

Lemma modal_inv_run (inputs : list input) (st : state) :
  modal_inv st -> modal_inv (fst (run st inputs)).
Proof.
  revert st. induction inputs as [|i rest IH]; intros st H; [exact H|].
  rewrite run_cons. cbn [fst]. apply IH, modal_inv_step, H.
Qed.

Lemma stale_step (rid : nat) (st : state) (i : input) :
  modal_inv st -> stale rid st ->
  stale rid (fst (step st i)) /\ ~ In rid (settled (snd (step st i))).
Proof.
  intros [Heq Hlt] [Hr Hnw].
  destruct (step_changes_modal st i)
    as [Hn [(H1 & H2 & Hs) | [(rid' & k' & Hr' & H1 & H2 & Hs) | (rid' & k' & Hw & H1 & H2 & Hs)]]];
    rewrite Hs.
  - split; [|intros []]. split; [lia|]. intros k. rewrite H1. apply Hnw.
  - split; [|intros []]. split; [lia|]. intros k. rewrite H1.
    intros E. injection E as -> _. lia.
  - split.
    + split; [lia|]. intros k. rewrite H1. discriminate.
    + intros [->|[]]. rewrite <- Heq in Hw. destruct Hw as [Hw|Hw]; exact (Hnw _ Hw).
Qed.

Lemma stale_never_settled (inputs : list input) (rid : nat) (st : state) :
  modal_inv st -> stale rid st -> ~ In rid (settled (snd (run st inputs))).
Proof.
  revert st. induction inputs as [|i rest IH]; intros st Hinv Hst.
  - intros [].
  - rewrite run_cons. cbn [snd]. rewrite settled_app. intros Hin.
    destruct (stale_step rid st i Hinv Hst) as [Hst' Hno].
    apply in_app_or in Hin. destruct Hin as [Hin|Hin]; [exact (Hno Hin)|].
    exact (IH _ (modal_inv_step _ i Hinv) Hst' Hin).
Qed.

Lemma outstanding_at_most_one (st : state) :
  modal_inv st -> length (outstanding st) <= 1.
Proof.
  intros [Heq _]. unfold outstanding. rewrite <- Heq.
  destruct (modalOk_onclick st) as [[a k]|]; [|apply le_0_n].
  rewrite Nat.eqb_refl. apply le_n.
Qed.

(** C5: in every state the page can reach, at most one confirmation
    request is wired to the modal buttons.  [showModal] always wires a
    fresh request to both buttons, replacing whatever was wired; and once
    a step has replaced a wired request by another, the replaced request
    is never settled again: it can neither resolve (and so drive a
    mutation) nor reject, whatever happens afterwards. *)
Theorem new_request_supersedes_stale
    (inputs more : list input) (i : input) (rid : nat) (k0 : modal_kont)
    (r : outcome confirmation) :
  let st := fst (run loaded inputs) in
  let st' := fst (step st i) in
  modalOk_onclick st = Some (rid, k0) ->
  (exists rid' k', modalOk_onclick st' = Some (rid', k') /\ rid' <> rid) ->
  length (outstanding st) <= 1
  /\ length (outstanding st') <= 1
  /\ (forall title foot withNote k,
        let st2 := fst (exec (showModal title foot withNote k) st) in
        modalOk_onclick st2 = Some (next_id st, k)
        /\ modalCancel_onclick st2 = Some (next_id st, k)
        /\ next_id st <> rid)
  /\ ~ In (OSettled rid r) (snd (run st' more)).
Proof.
  intros st st' Hw (rid' & k' & Hw' & Hne).
  assert (Hinv : modal_inv st) by (apply modal_inv_run, modal_inv_loaded).
  assert (Hinv' : modal_inv st') by (apply modal_inv_step, Hinv).
  assert (Hlt : rid < next_id st) by (apply (proj2 Hinv _ _ Hw)).
  split; [apply outstanding_at_most_one, Hinv|].
  split; [apply outstanding_at_most_one, Hinv'|].
  split.
  - intros title foot withNote k st2. subst st2. rewrite exec_showModal.
    cbn [fst]. repeat split. lia.
  - intros Hin. apply In_settled in Hin.
    apply (stale_never_settled more rid st' Hinv'); [|exact Hin].
    split.
    + destruct (step_changes_modal st i) as [Hn _]. fold st' in Hn. lia.
    + intros k E. rewrite Hw' in E. injection E as E _. exact (Hne E).
Qed.

Lemma new_request_supersedes_stale_witness :
  modalOk_onclick confirming_create = Some (2, MSelect (js "Dentist") a_selection)
  /\ modalOk_onclick
       (fst (step confirming_create
                  (CalendarEventClick alice_event (Some (js "delete")) None)))
     = Some (3, MDelete alice_event)
  /\ ~ In (OSettled 2 (Ok (Confirmation (js "1234") [])))
          (snd (run (fst (step confirming_create
                               (CalendarEventClick alice_event (Some (js "delete")) None)))
                    [ModalType PassField (js "1234"); ModalOkClick; ModalCancelClick])).
Proof.
  assert (Hw : modalOk_onclick confirming_create
               = Some (2, MSelect (js "Dentist") a_selection)) by reflexivity.
  assert (Hw' : modalOk_onclick
                  (fst (step confirming_create
                             (CalendarEventClick alice_event (Some (js "delete")) None)))
                = Some (3, MDelete alice_event)) by reflexivity.
  split; [exact Hw|]. split; [exact Hw'|].
  refine (proj2 (proj2 (proj2
    (new_request_supersedes_stale
       [Reply 0 users_reply; LoginClick (js "alice") (js "1234");
        Reply 1 login_reply; CalendarSelect a_selection (Some (js "Dentist"))]
       [ModalType PassField (js "1234"); ModalOkClick; ModalCancelClick]
       (CalendarEventClick alice_event (Some (js "delete")) None)
       2 (MSelect (js "Dentist") a_selection)
       (Ok (Confirmation (js "1234") []))
       Hw _)))).
  exists 3, (MDelete alice_event). split; [exact Hw' | discriminate].
Defined.

(** After the replacement, pressing OK settles the delete request only. *)
Example superseded_create_is_not_sent :
  settled (snd (run confirming_create
                    [CalendarEventClick alice_event (Some (js "delete")) None;
                     ModalType PassField (js "1234");
                     ModalOkClick; ModalOkClick; ModalCancelClick]))
  = [3].
Proof. vm_compute. reflexivity. Qed.
